(** * Indent size selector: shallow embedding of
    crates/indent_size_selector/src/indent_size_selector.rs

    The picker delegate [IndentSizeSelectorDelegate] is modelled as a record;
    each delegate method becomes a function over it.  Effects visible to the
    rest of the application (settings-store writes, error logs, the dismiss
    event) are recorded in a small writer monad as a trace of [Event]s. *)

From Stdlib Require Import Floats.
From stdpp Require Import base list strings pretty.

Local Open Scope string_scope.

(** ** Data model *)

(** [fuzzy::StringMatchCandidate]: an id and a label (the char bag the
    fuzzy crate caches alongside is derived from [cand_string]). *)
Record StringMatchCandidate := {
  cand_id : nat;
  cand_string : string
}.

(** [StringMatchCandidate::new(id, string)] *)
Definition StringMatchCandidate_new (id : nat) (s : string) : StringMatchCandidate :=
  {| cand_id := id; cand_string := s |}.

(** [fuzzy::StringMatch]; [score] is an [f64]. *)
Record StringMatch := {
  candidate_id : nat;
  string_of_match : string;
  positions : list nat;
  score : float
}.

(** Handles: [WeakEntity<IndentSizeSelector>] is an entity id that may or
    may not resolve; worktree ids are numbers. *)
Definition EntityId := nat.
Definition WorktreeId := nat.

(** [text::Point] *)
Record Point := { row : nat; column : nat }.
Definition Point_zero : Point := {| row := 0; column := 0 |}.

(** A file of the project: its worktree and its worktree-relative path. *)
Record File := { worktree_id : WorktreeId; path : string }.

Record Language := { language_name : string }.

(** The part of [language::Buffer] the selector reads. *)
Record Buffer := {
  buffer_language : option Language;
  buffer_file : option File
}.

(** The part of [editor::Editor] the selector reads:
    [file_at(point, cx)] and [active_excerpt(cx)], whose result is
    (excerpt id, buffer, anchor range). *)
Record Editor := {
  file_at : Point -> option File;
  active_excerpt : option (nat * Buffer * (nat * nat))
}.

Inductive LocalSettingsKind := Settings | Tasks | Editorconfig.

Inductive IndentKind := Space | Tab.

(** [language::IndentSize] *)
Record IndentSize := { len : N; kind : IndentKind }.

(** [IndentSizeSelectorDelegate] *)
Record IndentSizeSelectorDelegate := {
  indent_size_selector : EntityId;
  editor : Editor;
  candidates : list StringMatchCandidate;
  matches : list StringMatch;
  selected_index : nat
}.

(** ** [IndentSizeSelectorDelegate::new] *)

Definition indent_candidates : list StringMatchCandidate :=
  [StringMatchCandidate_new 16 "Toggle Spaces/Tabs";
   StringMatchCandidate_new 2 "2 spaces";
   StringMatchCandidate_new 4 "4 spaces";
   StringMatchCandidate_new 8 "8 spaces"].

Definition IndentSizeSelectorDelegate_new (sel : EntityId) (ed : Editor)
    : IndentSizeSelectorDelegate :=
  {| indent_size_selector := sel;
     editor := ed;
     candidates := indent_candidates;
     matches := [];
     selected_index := 0 |}.

(** ** Filtering ([update_matches], background part)

    [match_strings(candidates, query, smart_case, max_results, cancel, executor)]
    of the fuzzy crate is a parameter here; its cancel flag and executor do
    not influence the result. *)

Definition MatchStrings :=
  list StringMatchCandidate -> string -> bool -> nat -> list StringMatch.

Section Filtering.
Variable match_strings : MatchStrings.

Definition compute_matches (cands : list StringMatchCandidate) (query : string)
    : list StringMatch :=
  if String.eqb query "" then
    map (fun candidate =>
           {| candidate_id := cand_id candidate;
              string_of_match := cand_string candidate;
              positions := [];
              score := 0%float |}) cands
  else match_strings cands query false 100.
End Filtering.

(** ** [update_matches], completion on the UI thread *)

Definition update_matches_complete (d : IndentSizeSelectorDelegate)
    (ms : list StringMatch) : IndentSizeSelectorDelegate :=
  {| indent_size_selector := indent_size_selector d;
     editor := editor d;
     candidates := candidates d;
     matches := ms;
     selected_index := Nat.min (selected_index d) (length ms - 1) |}.

(** [update_matches(query)] as seen once its task has completed. *)
Definition update_matches (ms_fn : MatchStrings) (query : string)
    (d : IndentSizeSelectorDelegate) : IndentSizeSelectorDelegate :=
  update_matches_complete d (compute_matches ms_fn (candidates d) query).

(** [set_selected_index(ix)] *)
Definition set_selected_index (ix : nat) (d : IndentSizeSelectorDelegate)
    : IndentSizeSelectorDelegate :=
  {| indent_size_selector := indent_size_selector d;
     editor := editor d;
     candidates := candidates d;
     matches := matches d;
     selected_index := ix |}.

(** ** The fuzzy matcher *)

(** Modelled from the spec: [fuzzy::match_strings], which lives in the
    repository's fuzzy crate and not in this crate.  Per the spec: a
    case-insensitive subsequence match of the query against each label,
    annotated with the matched character positions and a relevance score
    (earlier and denser matches score higher), candidates with no match
    dropped, results ranked by descending score and at most [max_results]
    of them returned. *)
Definition ascii_to_lower (c : Ascii.ascii) : Ascii.ascii :=
  let n := Ascii.nat_of_ascii c in
  if (Nat.leb 65 n && Nat.leb n 90)%bool then Ascii.ascii_of_nat (n + 32)%nat else c.

Definition lower (s : string) : list Ascii.ascii :=
  map ascii_to_lower (String.list_ascii_of_string s).

Fixpoint subseq_positions (q s : list Ascii.ascii) (i : nat) {struct s}
    : option (list nat) :=
  match q with
  | [] => Some []
  | c :: q' =>
      match s with
      | [] => None
      | x :: s' =>
          if Ascii.eqb c x then option_map (cons i) (subseq_positions q' s' (S i))
          else subseq_positions q s' (S i)
      end
  end.

Definition float_of_nat (n : nat) : float :=
  PrimFloat.of_uint63 (Uint63.of_Z (Z.of_nat n)).

Definition score_candidate (query : string) (c : StringMatchCandidate)
    : option StringMatch :=
  let q := lower query in
  match subseq_positions q (lower (cand_string c)) 0 with
  | Some ps =>
      Some {| candidate_id := cand_id c;
              string_of_match := cand_string c;
              positions := ps;
              score := PrimFloat.div (float_of_nat (length q))
                                     (float_of_nat (S (List.last ps 0))) |}
  | None => None
  end.

Fixpoint insert_by_score (m : StringMatch) (l : list StringMatch) : list StringMatch :=
  match l with
  | [] => [m]
  | y :: l' => if PrimFloat.ltb (score y) (score m) then m :: l
               else y :: insert_by_score m l'
  end.

Definition sort_by_score (l : list StringMatch) : list StringMatch :=
  fold_right insert_by_score [] (rev l).

Definition fuzzy_match_strings : MatchStrings :=
  fun cands query _smart_case max_results =>
    firstn max_results (sort_by_score (omap (score_candidate query) cands)).

(** ** Effects: a writer monad over the observable events *)

Inductive Event :=
  | SetLocalSettings (w : WorktreeId) (p : string) (k : LocalSettingsKind)
                     (config : option string)
  | LogError (msg : string)
  | EmitDismiss (target : EntityId).

Definition M (A : Type) : Type := A * list Event.
Global Instance M_ret : MRet M := fun A a => (a, []).
Global Instance M_bind : MBind M := fun A B f m =>
  let '(a, w) := m in let '(b, w') := f a in (b, (w ++ w')%list).
Definition emit (e : Event) : M unit := (tt, [e]).

(** The application context: which entities are still alive (for weak
    handles) and what [SettingsStore::set_local_settings] answers. *)
Record Cx := {
  entity_alive : EntityId -> bool;
  set_local_settings :
    WorktreeId -> string -> LocalSettingsKind -> option string -> option string
    (** [None] is [Ok(())], [Some e] is [Err(e)] with [e] displayed *)
}.

Definition nl : string := String (Ascii.ascii_of_nat 10) EmptyString.

(** [format!("[/**]\nindent_size = {indent_size}\nindent_style = space\ntab_width={indent_size}")] *)
Definition indent_config (indent_size : nat) : string :=
  "[/**]" +:+ nl +:+ "indent_size = " +:+ pretty indent_size +:+ nl +:+
  "indent_style = space" +:+ nl +:+ "tab_width=" +:+ pretty indent_size.

(** [dismissed]: [self.indent_size_selector.update(cx, |_, cx| cx.emit(DismissEvent)).log_err()] *)
Definition dismissed (cx : Cx) (d : IndentSizeSelectorDelegate) : M unit :=
  if entity_alive cx (indent_size_selector d) then emit (EmitDismiss (indent_size_selector d))
  else emit (LogError "entity released").

(** [confirm].  [self.editor] is a strong handle, so the update through its
    downgrade always runs. *)
Definition confirm (cx : Cx) (d : IndentSizeSelectorDelegate)
    : M IndentSizeSelectorDelegate :=
  (match matches d !! selected_index d with
   | Some mat =>
       let indent_size := candidate_id mat in
       match file_at (editor d) Point_zero with
       | Some file =>
           let worktree_id := worktree_id file in
           let p := path file in
           let config := indent_config indent_size in
           emit (SetLocalSettings worktree_id p Editorconfig (Some config)) ;;
           match set_local_settings cx worktree_id p Editorconfig (Some config) with
           | None => mret tt
           | Some e => emit (LogError ("set_indent failed: " +:+ e))
           end
       | None => mret tt
       end
   | None => mret tt
   end) ;;
  dismissed cx d ;;
  mret d.

(** ** [read_indent_size]

    [language_settings(language, file, cx)] is the settings crate's
    resolution; the selector only reads [tab_size] and [hard_tabs]. *)

Record LanguageSettings := { tab_size : positive; hard_tabs : bool }.

Section ReadIndentSize.
Variable App : Type.
Variable language_settings : option string -> option File -> App -> LanguageSettings.

(** [cx : &App] is borrowed immutably: the function is a pure read of the
    application snapshot. *)
Definition read_indent_size (ed : Editor) (cx : App) : option IndentSize :=
  match active_excerpt ed with
  | Some (_, buffer, _) =>
      match buffer_language buffer with
      | Some language =>
          let file := buffer_file buffer in
          let settings := language_settings (Some (language_name language)) file cx in
          Some {| len := Npos (tab_size settings);
                  kind := if hard_tabs settings then Tab else Space |}
      | None => None
      end
  | None => None
  end.
End ReadIndentSize.

(** ** Reachable delegate states

    The picker drives the delegate through [update_matches] (its completion),
    [set_selected_index] with an index it has checked against [match_count],
    and [confirm]. *)

Section Reachable.
Variable match_strings : MatchStrings.

Inductive reachable : IndentSizeSelectorDelegate -> Prop :=
| reach_new sel ed :
    reachable (IndentSizeSelectorDelegate_new sel ed)
| reach_update d query :
    reachable d -> reachable (update_matches match_strings query d)
| reach_set_selected d ix :
    reachable d -> ix < length (matches d) ->
    reachable (set_selected_index ix d)
| reach_confirm d cx :
    reachable d -> reachable (fst (confirm cx d)).
End Reachable.

(** ** [render_match]

    [HighlightedLabel::new(c.string.clone(), mat.positions.clone())] inside
    a [ListItem::new(ix).inset(true).toggle_state(selected)]. *)
Record ListItem := {
  li_ix : nat;
  li_selected : bool;
  li_label : string;
  li_highlights : list nat
}.

(** The outer [None] is the panic of [self.matches[ix]] out of bounds; the
    inner option is the method's [Option<ListItem>] ([.take()] on the
    temporary is the identity). *)
Definition render_match (ix : nat) (selected : bool) (d : IndentSizeSelectorDelegate)
    : option (option ListItem) :=
  match matches d !! ix with
  | None => None
  | Some mat =>
      Some (option_map
              (fun c => {| li_ix := ix; li_selected := selected;
                           li_label := cand_string c;
                           li_highlights := positions mat |})
              (List.find (fun x => Nat.eqb (cand_id x) (candidate_id mat))
                         (candidates d)))
  end.

(** ** [IndentSizeSelector::toggle]

    A workspace item either acts as an [Editor] or not.  [toggle] answers
    [Some ed] when it calls [workspace.toggle_modal] with a constructor
    building [IndentSizeSelector::new(ed)], and [None] when it returns early. *)
Inductive Item := ItemEditor (ed : Editor) | ItemOther.

Definition act_as_editor (item : Item) : option Editor :=
  match item with ItemEditor ed => Some ed | ItemOther => None end.

Record Workspace := { active_item : option Item }.

Definition toggle (ws : Workspace) : option Editor :=
  item ← active_item ws;
  act_as_editor item.

(** ** The status-bar item [Indentation] (indentation.rs) *)

Record Indentation := {
  indent_size : option IndentSize;
  workspace : EntityId;
  observe_active_editor : option Editor  (** the editor observed, if any *)
}.

Section StatusItem.
Variable App : Type.
Variable language_settings : option string -> option File -> App -> LanguageSettings.

(** [Indentation::new(workspace)] *)
Definition Indentation_new (ws : EntityId) : Indentation :=
  {| indent_size := None; workspace := ws; observe_active_editor := None |}.

(** [update_indentation(editor)]; the [cx.notify()] only schedules a
    re-render. *)
Definition update_indentation (ed : Editor) (cx : App) (st : Indentation)
    : Indentation :=
  {| indent_size := read_indent_size App language_settings ed cx;
     workspace := workspace st;
     observe_active_editor := observe_active_editor st |}.

(** [set_active_pane_item(active_pane_item)]: [downcast::<Editor>()]. *)
Definition set_active_pane_item (active_pane_item : option Item) (cx : App)
    (st : Indentation) : Indentation :=
  match active_pane_item ≫= act_as_editor with
  | Some ed =>
      update_indentation ed cx
        {| indent_size := indent_size st; workspace := workspace st;
           observe_active_editor := Some ed |}
  | None =>
      {| indent_size := None; workspace := workspace st;
         observe_active_editor := None |}
  end.
End StatusItem.

(** [render]: the button text [format!("{}: {}", mode, indent_size.len)],
    or no button when there is no indent size. *)
Definition render (st : Indentation) : option string :=
  match indent_size st with
  | Some s =>
      let mode := match kind s with Tab => "Tab" | Space => "Space" end in
      Some (mode +:+ ": " +:+ pretty (len s))
  | None => None
  end.

(** The button's click listener: toggles the selector in the workspace
    when the weak workspace handle resolves and an indent size is shown. *)
Definition on_click (workspace_alive : bool) (ws : Workspace) (st : Indentation)
    : option Editor :=
  match workspace_alive, indent_size st with
  | true, Some _indent_size => toggle ws
  | _, _ => None
  end.

(** ** Sanity checks on concrete inputs *)

Example filter_8 :
  map (fun m => (candidate_id m, positions m))
      (compute_matches fuzzy_match_strings indent_candidates "8") = [(8, [0])].
Proof. vm_compute. reflexivity. Qed.

Example filter_spaces :
  map candidate_id (compute_matches fuzzy_match_strings indent_candidates "SPA") = [2; 4; 8; 16].
Proof. vm_compute. reflexivity. Qed.

Example config_4 :
  indent_config 4 = "[/**]
indent_size = 4
indent_style = space
tab_width=4".
Proof. vm_compute. reflexivity. Qed.

(** ** Shared definitions and lemmas for the proofs *)

Definition is_settings_write (e : Event) : bool :=
  match e with SetLocalSettings _ _ _ _ => true | _ => false end.

Definition main_rs : File := {| worktree_id := 1; path := "src/main.rs" |}.

Definition editor_main_rs : Editor :=
  {| file_at := fun _ => Some main_rs; active_excerpt := None |}.

Definition editor_no_file : Editor :=
  {| file_at := fun _ => None; active_excerpt := None |}.

Definition cx_ok : Cx :=
  {| entity_alive := fun _ => true; set_local_settings := fun _ _ _ _ => None |}.

Definition cx_err : Cx :=
  {| entity_alive := fun _ => true;
     set_local_settings := fun _ _ _ _ => Some "permission denied" |}.

Lemma confirm_state d cx : fst (confirm cx d) = d.
Proof.
  unfold confirm, dismissed, emit, mret, M_ret, mbind, M_bind.
  destruct (matches d !! selected_index d); [destruct (file_at _ _)|];
    [destruct (set_local_settings _ _ _ _ _)| |];
    destruct (entity_alive cx _); reflexivity.
Qed.

Lemma confirm_no_selection d cx :
  matches d !! selected_index d = None ->
  confirm cx d = (d, snd (dismissed cx d)).
Proof.
  intros H. unfold confirm. rewrite H.
  unfold dismissed, emit, mret, M_ret, mbind, M_bind.
  destruct (entity_alive cx _); reflexivity.
Qed.

Lemma confirm_no_file d cx mat :
  matches d !! selected_index d = Some mat ->
  file_at (editor d) Point_zero = None ->
  confirm cx d = (d, snd (dismissed cx d)).
Proof.
  intros H Hf. unfold confirm. rewrite H, Hf.
  unfold dismissed, emit, mret, M_ret, mbind, M_bind.
  destruct (entity_alive cx _); reflexivity.
Qed.

Lemma confirm_with_file d cx mat f :
  matches d !! selected_index d = Some mat ->
  file_at (editor d) Point_zero = Some f ->
  confirm cx d =
    (d, ([SetLocalSettings (worktree_id f) (path f) Editorconfig
            (Some (indent_config (candidate_id mat)))] ++
         match set_local_settings cx (worktree_id f) (path f) Editorconfig
                 (Some (indent_config (candidate_id mat))) with
         | None => []
         | Some e => [LogError ("set_indent failed: " +:+ e)]
         end ++ snd (dismissed cx d))%list).
Proof.
  intros H Hf. unfold confirm. rewrite H, Hf.
  unfold dismissed, emit, mret, M_ret, mbind, M_bind.
  destruct (set_local_settings _ _ _ _ _); destruct (entity_alive cx _); reflexivity.
Qed.

Lemma dismissed_alive d cx :
  entity_alive cx (indent_size_selector d) = true ->
  snd (dismissed cx d) = [EmitDismiss (indent_size_selector d)].
Proof. intros H. unfold dismissed. rewrite H. reflexivity. Qed.

Lemma dismissed_no_write d cx :
  List.filter is_settings_write (snd (dismissed cx d)) = [].
Proof. unfold dismissed. destruct (entity_alive cx _); reflexivity. Qed.

Lemma clamp_valid (old : nat) (ms : list StringMatch) :
  Nat.min old (length ms - 1) < length ms \/
  (ms = [] /\ Nat.min old (length ms - 1) = 0).
Proof.
  destruct ms as [|m ms]; simpl.
  - right. split; [reflexivity | lia].
  - left. lia.
Qed.

Definition valid_selection (d : IndentSizeSelectorDelegate) : Prop :=
  selected_index d < length (matches d) \/
  (matches d = [] /\ selected_index d = 0).

(** ** Claims about the selection state *)

(** C1: in every state the picker can drive the delegate into (from
    [new], through [update_matches] completions, in-range
    [set_selected_index] calls and [confirm]), [selected_index] is a valid
    index into [matches], or 0 when [matches] is empty. *)
Theorem selected_index_valid_reachable (match_strings : MatchStrings)
    (d : IndentSizeSelectorDelegate) :
  reachable match_strings d ->
  selected_index d < length (matches d) \/
  (matches d = [] /\ selected_index d = 0).
Proof.
  induction 1 as [sel ed | d query _ IH | d ix _ IH Hix | d cx _ IH].
  - right. split; reflexivity.
  - apply clamp_valid.
  - left. exact Hix.
  - rewrite confirm_state. exact IH.
Qed.

Lemma selected_index_valid_reachable_witness :
  reachable fuzzy_match_strings
    (update_matches fuzzy_match_strings "8"
       (IndentSizeSelectorDelegate_new 0 editor_main_rs)) /\
  (selected_index (update_matches fuzzy_match_strings "8"
       (IndentSizeSelectorDelegate_new 0 editor_main_rs)) <
     length (matches (update_matches fuzzy_match_strings "8"
       (IndentSizeSelectorDelegate_new 0 editor_main_rs))) \/
   (matches (update_matches fuzzy_match_strings "8"
       (IndentSizeSelectorDelegate_new 0 editor_main_rs)) = [] /\
    selected_index (update_matches fuzzy_match_strings "8"
       (IndentSizeSelectorDelegate_new 0 editor_main_rs)) = 0)).
Proof.
  assert (R : reachable fuzzy_match_strings
    (update_matches fuzzy_match_strings "8"
       (IndentSizeSelectorDelegate_new 0 editor_main_rs)))
    by (apply reach_update; apply reach_new).
  split; [exact R | apply (selected_index_valid_reachable fuzzy_match_strings _ R)].
Defined.

(** C5: when an [update_matches] task completes with any match list [ms],
    the delegate stores [ms] and sets [selected_index] to
    [min(old, len(ms) - 1)] (the subtraction saturating at 0); hence the new
    index is below [len(ms)], or [ms] is empty and the index is 0. *)
Theorem update_matches_complete_clamps (d : IndentSizeSelectorDelegate)
    (ms : list StringMatch) :
  matches (update_matches_complete d ms) = ms /\
  selected_index (update_matches_complete d ms) =
    Nat.min (selected_index d) (length ms - 1) /\
  (selected_index (update_matches_complete d ms) < length ms \/
   (ms = [] /\ selected_index (update_matches_complete d ms) = 0)).
Proof.
  split; [reflexivity|]. split; [reflexivity|]. apply clamp_valid.
Qed.

(** C9: every delegate state the picker can reach carries the fixed
    candidate list [Toggle Spaces/Tabs (16); 2 spaces; 4 spaces; 8 spaces]:
    [new] installs it whatever the selector and editor, and no operation
    changes it. *)
Theorem candidates_fixed (match_strings : MatchStrings)
    (d : IndentSizeSelectorDelegate) :
  reachable match_strings d ->
  candidates d =
    [{| cand_id := 16; cand_string := "Toggle Spaces/Tabs" |};
     {| cand_id := 2; cand_string := "2 spaces" |};
     {| cand_id := 4; cand_string := "4 spaces" |};
     {| cand_id := 8; cand_string := "8 spaces" |}].
Proof.
  induction 1 as [sel ed | d query _ IH | d ix _ IH Hix | d cx _ IH];
    simpl; try exact IH.
  - reflexivity.
  - rewrite confirm_state. exact IH.
Qed.

Lemma candidates_fixed_witness :
  reachable fuzzy_match_strings
    (fst (confirm cx_ok (IndentSizeSelectorDelegate_new 3 editor_no_file))) /\
  candidates (fst (confirm cx_ok (IndentSizeSelectorDelegate_new 3 editor_no_file))) =
    [{| cand_id := 16; cand_string := "Toggle Spaces/Tabs" |};
     {| cand_id := 2; cand_string := "2 spaces" |};
     {| cand_id := 4; cand_string := "4 spaces" |};
     {| cand_id := 8; cand_string := "8 spaces" |}].
Proof.
  assert (R : reachable fuzzy_match_strings
    (fst (confirm cx_ok (IndentSizeSelectorDelegate_new 3 editor_no_file))))
    by (apply reach_confirm; apply reach_new).
  split; [exact R | apply (candidates_fixed fuzzy_match_strings _ R)].
Defined.

(** ** Claims about filtering *)

(** C4: with the empty query the match list is the candidate list itself,
    in order, each entry carrying the candidate's id and label, no matched
    positions and score 0; the fuzzy matcher is not consulted (the result is
    the same whatever matcher is supplied). *)
Theorem filter_empty_query (match_strings : MatchStrings)
    (cands : list StringMatchCandidate) :
  length (compute_matches match_strings cands "") = length cands /\
  (forall (i : nat) (c : StringMatchCandidate), cands !! i = Some c ->
     compute_matches match_strings cands "" !! i =
       Some {| candidate_id := cand_id c; string_of_match := cand_string c;
               positions := []; score := 0%float |}) /\
  (forall other : MatchStrings,
     compute_matches other cands "" = compute_matches match_strings cands "").
Proof.
  unfold compute_matches; simpl. split; [|split].
  - apply length_map.
  - intros i c Hc. rewrite list_lookup_fmap, Hc. reflexivity.
  - intros other. reflexivity.
Qed.

(** C6: whatever the query, filtering the selector's candidate list yields
    at most 100 matches. *)
Theorem filter_at_most_100 (query : string) :
  length (compute_matches fuzzy_match_strings indent_candidates query) <= 100.
Proof.
  unfold compute_matches. destruct (String.eqb query "").
  - rewrite length_map. simpl. lia.
  - unfold fuzzy_match_strings. apply firstn_le_length.
Qed.

(** ** Claim about [read_indent_size] *)

(** C7: when the active excerpt's buffer has no language, [read_indent_size]
    returns [None]; it only reads the application snapshot, which it cannot
    change (its result is the indent size alone). *)
Theorem read_indent_size_no_language (App : Type)
    (language_settings : option string -> option File -> App -> LanguageSettings)
    (ed : Editor) (cx : App) (excerpt : nat) (buffer : Buffer) (range : nat * nat) :
  active_excerpt ed = Some (excerpt, buffer, range) ->
  buffer_language buffer = None ->
  read_indent_size App language_settings ed cx = None.
Proof.
  intros He Hl. unfold read_indent_size. rewrite He, Hl. reflexivity.
Qed.

Definition plain_buffer : Buffer :=
  {| buffer_language := None; buffer_file := Some main_rs |}.

Lemma read_indent_size_no_language_witness :
  active_excerpt {| file_at := fun _ => Some main_rs;
                    active_excerpt := Some (0, plain_buffer, (0, 5)) |}
    = Some (0, plain_buffer, (0, 5)) /\
  buffer_language plain_buffer = None /\
  read_indent_size unit (fun _ _ _ => {| tab_size := 4%positive; hard_tabs := false |})
    {| file_at := fun _ => Some main_rs;
       active_excerpt := Some (0, plain_buffer, (0, 5)) |} tt = None.
Proof.
  split; [reflexivity|]. split; [reflexivity|].
  apply (read_indent_size_no_language unit _ _ tt 0 plain_buffer (0, 5));
    reflexivity.
Defined.

(** ** Claims about [confirm] *)

(** C2: when the selected match has candidate id [n] (the toggle sentinel 16
    included) and the editor's file at the buffer start lies in worktree [W]
    at path [P], [confirm] makes exactly one settings-store write: for
    [(W, P)], of kind [Editorconfig], with the text
    "[/**]\nindent_size = n\nindent_style = space\ntab_width=n". *)
Theorem confirm_writes_override (cx : Cx) (d : IndentSizeSelectorDelegate)
    (mat : StringMatch) (f : File) :
  matches d !! selected_index d = Some mat ->
  file_at (editor d) Point_zero = Some f ->
  List.filter is_settings_write (snd (confirm cx d)) =
    [SetLocalSettings (worktree_id f) (path f) Editorconfig
       (Some ("[/**]" +:+ nl +:+
              "indent_size = " +:+ pretty (candidate_id mat) +:+ nl +:+
              "indent_style = space" +:+ nl +:+
              "tab_width=" +:+ pretty (candidate_id mat)))].
Proof.
  intros H Hf. rewrite (confirm_with_file d cx mat f H Hf). simpl.
  rewrite List.filter_app.
  destruct (set_local_settings _ _ _ _ _); simpl;
    rewrite dismissed_no_write; reflexivity.
Qed.

Definition toggle_match : StringMatch :=
  {| candidate_id := 16; string_of_match := "Toggle Spaces/Tabs";
     positions := []; score := 0%float |}.

Definition delegate_toggle_selected : IndentSizeSelectorDelegate :=
  {| indent_size_selector := 7; editor := editor_main_rs;
     candidates := indent_candidates; matches := [toggle_match];
     selected_index := 0 |}.

Lemma confirm_writes_override_witness :
  matches delegate_toggle_selected !! selected_index delegate_toggle_selected
    = Some toggle_match /\
  file_at (editor delegate_toggle_selected) Point_zero = Some main_rs /\
  List.filter is_settings_write (snd (confirm cx_ok delegate_toggle_selected)) =
    [SetLocalSettings 1 "src/main.rs" Editorconfig
       (Some ("[/**]" +:+ nl +:+ "indent_size = " +:+ pretty 16 +:+ nl +:+
              "indent_style = space" +:+ nl +:+ "tab_width=" +:+ pretty 16))].
Proof.
  split; [reflexivity|]. split; [reflexivity|].
  apply (confirm_writes_override cx_ok delegate_toggle_selected toggle_match main_rs);
    reflexivity.
Defined.

(** C3: with no matches, [confirm] writes nothing to the settings store and
    still performs the dismissal of [dismissed]: its trace is exactly that of
    [dismissed], which emits [DismissEvent] on the (live) selector. *)
Theorem confirm_empty_matches (cx : Cx) (d : IndentSizeSelectorDelegate) :
  matches d = [] ->
  List.filter is_settings_write (snd (confirm cx d)) = [] /\
  confirm cx d = (d, snd (dismissed cx d)) /\
  (entity_alive cx (indent_size_selector d) = true ->
   snd (confirm cx d) = [EmitDismiss (indent_size_selector d)]).
Proof.
  intros Hm.
  assert (Hc : confirm cx d = (d, snd (dismissed cx d))).
  { apply confirm_no_selection. rewrite Hm. apply lookup_nil. }
  split; [|split; [exact Hc|]].
  - rewrite Hc. apply dismissed_no_write.
  - intros Ha. rewrite Hc. apply dismissed_alive. exact Ha.
Qed.

Lemma confirm_empty_matches_witness :
  matches (IndentSizeSelectorDelegate_new 5 editor_main_rs) = [] /\
  snd (confirm cx_ok (IndentSizeSelectorDelegate_new 5 editor_main_rs)) =
    [EmitDismiss 5].
Proof.
  split; [reflexivity|].
  apply (confirm_empty_matches cx_ok (IndentSizeSelectorDelegate_new 5 editor_main_rs));
    reflexivity.
Defined.

(** C8: when the settings-store write fails with [e], [confirm] logs
    "set_indent failed: e" and goes on: the delegate is returned unchanged
    (no error reaches the caller) and the dismissal is the same as when the
    write succeeds. *)
Theorem confirm_write_error_swallowed (cx : Cx) (d : IndentSizeSelectorDelegate)
    (mat : StringMatch) (f : File) (e : string) :
  matches d !! selected_index d = Some mat ->
  file_at (editor d) Point_zero = Some f ->
  set_local_settings cx (worktree_id f) (path f) Editorconfig
    (Some (indent_config (candidate_id mat))) = Some e ->
  let write := SetLocalSettings (worktree_id f) (path f) Editorconfig
                 (Some (indent_config (candidate_id mat))) in
  let cx_success := {| entity_alive := entity_alive cx;
                       set_local_settings := fun _ _ _ _ => None |} in
  fst (confirm cx d) = d /\
  snd (confirm cx d) =
    ([write; LogError ("set_indent failed: " +:+ e)] ++ snd (dismissed cx d))%list /\
  snd (confirm cx_success d) = ([write] ++ snd (dismissed cx d))%list.
Proof.
  intros H Hf He write cx_success.
  split; [apply confirm_state|]. split.
  - rewrite (confirm_with_file d cx mat f H Hf), He. reflexivity.
  - rewrite (confirm_with_file d cx_success mat f H Hf). reflexivity.
Qed.

Definition delegate_four_selected : IndentSizeSelectorDelegate :=
  update_matches fuzzy_match_strings "4"
    (IndentSizeSelectorDelegate_new 9 editor_main_rs).

Lemma confirm_write_error_swallowed_witness :
  snd (confirm cx_err delegate_four_selected) =
    [SetLocalSettings 1 "src/main.rs" Editorconfig (Some (indent_config 4));
     LogError ("set_indent failed: " +:+ "permission denied");
     EmitDismiss 9].
Proof.
  apply (confirm_write_error_swallowed cx_err delegate_four_selected
           (match matches delegate_four_selected with m :: _ => m | [] => toggle_match end)
           main_rs "permission denied"); vm_compute; reflexivity.
Defined.

(** C10: with a valid selection but no file at the buffer start, [confirm]
    writes nothing to the settings store and still performs the dismissal. *)
Theorem confirm_no_file_dismisses (cx : Cx) (d : IndentSizeSelectorDelegate)
    (mat : StringMatch) :
  matches d !! selected_index d = Some mat ->
  file_at (editor d) Point_zero = None ->
  List.filter is_settings_write (snd (confirm cx d)) = [] /\
  confirm cx d = (d, snd (dismissed cx d)) /\
  (entity_alive cx (indent_size_selector d) = true ->
   snd (confirm cx d) = [EmitDismiss (indent_size_selector d)]).
Proof.
  intros H Hf.
  assert (Hc : confirm cx d = (d, snd (dismissed cx d)))
    by (apply (confirm_no_file d cx mat H Hf)).
  split; [|split; [exact Hc|]].
  - rewrite Hc. apply dismissed_no_write.
  - intros Ha. rewrite Hc. apply dismissed_alive. exact Ha.
Qed.

Definition delegate_no_file : IndentSizeSelectorDelegate :=
  {| indent_size_selector := 2; editor := editor_no_file;
     candidates := indent_candidates; matches := [toggle_match];
     selected_index := 0 |}.

Lemma confirm_no_file_dismisses_witness :
  snd (confirm cx_ok delegate_no_file) = [EmitDismiss 2].
Proof.
  apply (confirm_no_file_dismisses cx_ok delegate_no_file toggle_match);
    reflexivity.
Defined.

(** ** Further properties of the selector and the status item *)

(** Shared facts about the matcher model: it only returns entries built from
    its input candidates, and never more than there are candidates. *)

Lemma insert_by_score_elem (m x : StringMatch) (l : list StringMatch) :
  In x (insert_by_score m l) <-> x = m \/ In x l.
Proof.
  induction l as [|y l IH]; simpl.
  - naive_solver.
  - destruct (PrimFloat.ltb (score y) (score m)); simpl; [naive_solver|].
    rewrite IH. naive_solver.
Qed.

Lemma insert_by_score_length (m : StringMatch) (l : list StringMatch) :
  length (insert_by_score m l) = S (length l).
Proof.
  induction l as [|y l IH]; simpl; [reflexivity|].
  destruct (PrimFloat.ltb (score y) (score m)); simpl; [reflexivity|]. rewrite IH. reflexivity.
Qed.

Lemma sort_by_score_elem (x : StringMatch) (l : list StringMatch) :
  In x (sort_by_score l) <-> In x l.
Proof.
  unfold sort_by_score. rewrite (in_rev l).
  induction (rev l) as [|y l' IH]; simpl; [tauto|].
  rewrite insert_by_score_elem, IH. naive_solver.
Qed.

Lemma sort_by_score_length (l : list StringMatch) :
  length (sort_by_score l) = length l.
Proof.
  unfold sort_by_score. rewrite <- (length_rev l).
  induction (rev l) as [|y l' IH]; simpl; [reflexivity|].
  rewrite insert_by_score_length, IH. reflexivity.
Qed.

Lemma score_candidate_origin (query : string) (c : StringMatchCandidate) (m : StringMatch) :
  score_candidate query c = Some m ->
  candidate_id m = cand_id c /\ string_of_match m = cand_string c.
Proof.
  unfold score_candidate. destruct (subseq_positions _ _ _); intros H; inversion H; auto.
Qed.

Lemma omap_score_origin (query : string) (cands : list StringMatchCandidate) (m : StringMatch) :
  In m (omap (score_candidate query) cands) ->
  exists c, In c cands /\ candidate_id m = cand_id c /\ string_of_match m = cand_string c.
Proof.
  induction cands as [|c cands IH]; simpl; [tauto|].
  destruct (score_candidate query c) as [m'|] eqn:E; simpl.
  - intros [->|H].
    + exists c. split; [left; reflexivity|]. apply (score_candidate_origin query c m E).
    + destruct (IH H) as (c' & ? & ?). exists c'. split; [right; assumption|assumption].
  - intros H. destruct (IH H) as (c' & ? & ?). exists c'. split; [right; assumption|assumption].
Qed.

Lemma omap_score_length (query : string) (cands : list StringMatchCandidate) :
  length (omap (score_candidate query) cands) <= length cands.
Proof.
  induction cands as [|c cands IH]; simpl; [lia|].
  destruct (score_candidate query c); simpl; unfold omap in IH; lia.
Qed.

Lemma fuzzy_origin cands query smart max (m : StringMatch) :
  In m (fuzzy_match_strings cands query smart max) ->
  exists c, In c cands /\ candidate_id m = cand_id c /\ string_of_match m = cand_string c.
Proof.
  unfold fuzzy_match_strings. intros H.
  assert (H' : In m (sort_by_score (omap (score_candidate query) cands))).
  { rewrite <- (firstn_skipn max (sort_by_score _)). apply in_or_app. left. exact H. }
  clear H. rename H' into H.
  rewrite sort_by_score_elem in H. apply omap_score_origin in H. exact H.
Qed.

Lemma reachable_candidates (ms : MatchStrings) (d : IndentSizeSelectorDelegate) :
  reachable ms d -> candidates d = indent_candidates.
Proof.
  induction 1 as [sel ed | d query _ IH | d ix _ IH Hix | d cx _ IH];
    simpl; try exact IH.
  - reflexivity.
  - rewrite confirm_state. exact IH.
Qed.

(** What every entry of a match list built from the selector's candidates
    looks like: the id and label of one of the four candidates. *)
Definition from_candidates (ms : list StringMatch) : Prop :=
  forall m, In m ms ->
  exists c, In c indent_candidates /\ candidate_id m = cand_id c /\
            string_of_match m = cand_string c.

Lemma compute_matches_fuzzy_inv (query : string) :
  length (compute_matches fuzzy_match_strings indent_candidates query) <= 4 /\
  from_candidates (compute_matches fuzzy_match_strings indent_candidates query).
Proof.
  unfold compute_matches. destruct (String.eqb query "").
  - split; [rewrite length_map; simpl; lia|].
    intros m Hm. apply in_map_iff in Hm as (c & <- & Hc).
    exists c. split; [exact Hc|split; reflexivity].
  - split.
    + unfold fuzzy_match_strings. rewrite length_firstn, sort_by_score_length.
      pose proof (omap_score_length query indent_candidates) as H.
      change (length indent_candidates) with 4 in H. lia.
    + intros m Hm. apply (fuzzy_origin _ _ _ _ _ Hm).
Qed.

Lemma reachable_fuzzy_inv (d : IndentSizeSelectorDelegate) :
  reachable fuzzy_match_strings d ->
  candidates d = indent_candidates /\ length (matches d) <= 4 /\
  from_candidates (matches d) /\ valid_selection d.
Proof.
  unfold valid_selection.
  induction 1 as [sel ed | d query _ IH | d ix _ IH Hix | d cx _ IH].
  - split; [reflexivity|]. split; [simpl; lia|].
    split; [intros m []|]. right. split; reflexivity.
  - destruct IH as (Hc & _ & _ & _). unfold update_matches. rewrite Hc.
    destruct (compute_matches_fuzzy_inv query) as [Hl Hf].
    split; [exact Hc|]. split; [exact Hl|]. split; [exact Hf|].
    apply clamp_valid.
  - destruct IH as (Hc & Hl & Hf & _). simpl.
    split; [exact Hc|]. split; [exact Hl|]. split; [exact Hf|]. left. exact Hix.
  - rewrite confirm_state. exact IH.
Qed.

Lemma find_indent_candidate (c : StringMatchCandidate) :
  In c indent_candidates ->
  List.find (fun x => Nat.eqb (cand_id x) (cand_id c)) indent_candidates = Some c.
Proof.
  simpl. intros [<-|[<-|[<-|[<-|[]]]]]; reflexivity.
Qed.

(** X1: [read_indent_size] yields an indent size exactly when the editor has
    an active excerpt whose buffer has a language. *)
Theorem read_indent_size_some_iff (App : Type)
    (language_settings : option string -> option File -> App -> LanguageSettings)
    (ed : Editor) (cx : App) :
  is_Some (read_indent_size App language_settings ed cx) <->
  exists excerpt buffer range lang,
    active_excerpt ed = Some (excerpt, buffer, range) /\
    buffer_language buffer = Some lang.
Proof.
  unfold read_indent_size. split.
  - destruct (active_excerpt ed) as [[[e b] r]|]; [|intros [? H]; discriminate].
    destruct (buffer_language b) as [l|] eqn:El; [|intros [? H]; discriminate].
    intros _. exists e, b, r, l. split; [reflexivity|exact El].
  - intros (e & b & r & l & He & Hl). rewrite He, Hl. eexists. reflexivity.
Qed.

(** X2: when the buffer has a language, the indent size is the [tab_size]
    resolved for that language and the buffer's file (so it is never 0), of
    kind [Tab] when [hard_tabs] is set and [Space] otherwise. *)
Theorem read_indent_size_settings (App : Type)
    (language_settings : option string -> option File -> App -> LanguageSettings)
    (ed : Editor) (cx : App) excerpt buffer range lang :
  active_excerpt ed = Some (excerpt, buffer, range) ->
  buffer_language buffer = Some lang ->
  exists s,
    read_indent_size App language_settings ed cx = Some s /\
    len s = Npos (tab_size (language_settings (Some (language_name lang))
                                               (buffer_file buffer) cx)) /\
    (0 < len s)%N /\
    (kind s = Tab <-> hard_tabs (language_settings (Some (language_name lang))
                                                    (buffer_file buffer) cx) = true).
Proof.
  intros He Hl. unfold read_indent_size. rewrite He, Hl.
  eexists. split; [reflexivity|]. simpl. split; [reflexivity|]. split; [lia|].
  destruct (hard_tabs _); split; intros H; try reflexivity; discriminate.
Qed.

Definition rust_buffer : Buffer :=
  {| buffer_language := Some {| language_name := "Rust" |};
     buffer_file := Some main_rs |}.

Definition editor_rust : Editor :=
  {| file_at := fun _ => Some main_rs;
     active_excerpt := Some (0, rust_buffer, (0, 10)) |}.

Definition settings_hard_tabs : option string -> option File -> unit -> LanguageSettings :=
  fun _ _ _ => {| tab_size := 8%positive; hard_tabs := true |}.

Lemma read_indent_size_settings_witness :
  exists s,
    read_indent_size unit settings_hard_tabs editor_rust tt = Some s /\
    len s = 8%N /\ (0 < len s)%N /\ (kind s = Tab <-> true = true).
Proof.
  exact (read_indent_size_settings unit settings_hard_tabs editor_rust tt
           0 rust_buffer (0, 10) {| language_name := "Rust" |} eq_refl eq_refl).
Defined.

(** X3: when the active pane item is absent or is not an editor, the status
    item forgets its indent size and its editor subscription, renders no
    button, and a click toggles nothing. *)
Theorem set_active_pane_item_non_editor (App : Type)
    (language_settings : option string -> option File -> App -> LanguageSettings)
    (item : option Item) (cx : App) (st : Indentation)
    (alive : bool) (ws : Workspace) :
  item ≫= act_as_editor = None ->
  let st' := set_active_pane_item App language_settings item cx st in
  indent_size st' = None /\ observe_active_editor st' = None /\
  render st' = None /\ on_click alive ws st' = None.
Proof.
  intros H st'. subst st'. unfold set_active_pane_item. rewrite H.
  split; [reflexivity|]. split; [reflexivity|]. split; [reflexivity|].
  destruct alive; reflexivity.
Qed.

Lemma set_active_pane_item_non_editor_witness :
  let st := {| indent_size := Some {| len := 4; kind := Space |};
               workspace := 1; observe_active_editor := Some editor_rust |} in
  Some ItemOther ≫= act_as_editor = None /\
  render (set_active_pane_item unit settings_hard_tabs (Some ItemOther) tt st) = None.
Proof.
  intros st. split; [reflexivity|].
  apply (set_active_pane_item_non_editor unit settings_hard_tabs (Some ItemOther) tt st
           true {| active_item := None |}).
  reflexivity.
Defined.

(** X4: when the active pane item is an editor whose buffer has a language,
    the status item subscribes to that editor and its button reads
    "Tab: n" (hard tabs) or "Space: n", n being the resolved [tab_size]. *)
Theorem set_active_pane_item_editor_label (App : Type)
    (language_settings : option string -> option File -> App -> LanguageSettings)
    (ed : Editor) (cx : App) (st : Indentation) excerpt buffer range lang :
  active_excerpt ed = Some (excerpt, buffer, range) ->
  buffer_language buffer = Some lang ->
  let s := language_settings (Some (language_name lang)) (buffer_file buffer) cx in
  let st' := set_active_pane_item App language_settings (Some (ItemEditor ed)) cx st in
  observe_active_editor st' = Some ed /\
  render st' = Some ((if hard_tabs s then "Tab" else "Space") +:+ ": " +:+
                     pretty (Npos (tab_size s))).
Proof.
  intros He Hl s st'. subst s st'.
  unfold set_active_pane_item, update_indentation, read_indent_size, render. simpl.
  rewrite He, Hl. split; [reflexivity|]. simpl.
  destruct (hard_tabs _); reflexivity.
Qed.

Lemma set_active_pane_item_editor_label_witness :
  render (set_active_pane_item unit settings_hard_tabs (Some (ItemEditor editor_rust)) tt
            (Indentation_new 1)) = Some ("Tab" +:+ ": " +:+ pretty 8%N).
Proof.
  apply (set_active_pane_item_editor_label unit settings_hard_tabs editor_rust tt
           (Indentation_new 1) 0 rust_buffer (0, 10) {| language_name := "Rust" |});
    reflexivity.
Defined.


(** X6: completing [update_matches] twice with the same query leaves the
    delegate as completing it once. *)
Theorem update_matches_idempotent (ms : MatchStrings) (query : string)
    (d : IndentSizeSelectorDelegate) :
  update_matches ms query (update_matches ms query d) = update_matches ms query d.
Proof.
  unfold update_matches, update_matches_complete. simpl. f_equal. lia.
Qed.

(** X7: in every state reachable with the fuzzy matcher, the match list has
    at most four entries, each carrying the id and the label of one of the
    four candidates, and the selected index is valid. *)
Theorem reachable_matches_from_candidates (d : IndentSizeSelectorDelegate) :
  reachable fuzzy_match_strings d ->
  length (matches d) <= 4 /\
  (forall m, In m (matches d) ->
     exists c, In c indent_candidates /\ candidate_id m = cand_id c /\
               string_of_match m = cand_string c) /\
  (selected_index d < length (matches d) \/
   (matches d = [] /\ selected_index d = 0)).
Proof.
  intros R. destruct (reachable_fuzzy_inv d R) as (_ & Hl & Hf & Hv).
  split; [exact Hl|]. split; [exact Hf|exact Hv].
Qed.

Definition delegate_after_spaces : IndentSizeSelectorDelegate :=
  update_matches fuzzy_match_strings "spaces"
    (IndentSizeSelectorDelegate_new 0 editor_rust).

Lemma reachable_matches_from_candidates_witness :
  reachable fuzzy_match_strings delegate_after_spaces /\
  length (matches delegate_after_spaces) <= 4.
Proof.
  assert (R : reachable fuzzy_match_strings delegate_after_spaces)
    by (apply reach_update; apply reach_new).
  split; [exact R|apply (reachable_matches_from_candidates _ R)].
Defined.

(** X8: in every state reachable with the fuzzy matcher, each row below
    [match_count] renders as a list item labelled with the matched
    candidate's label and highlighting the match positions; a row at or
    past [match_count] makes [render_match] panic on [self.matches[ix]]. *)
Theorem render_match_rows (d : IndentSizeSelectorDelegate) (ix : nat) (selected : bool) :
  reachable fuzzy_match_strings d ->
  (forall mat, matches d !! ix = Some mat ->
     render_match ix selected d =
       Some (Some {| li_ix := ix; li_selected := selected;
                     li_label := string_of_match mat;
                     li_highlights := positions mat |})) /\
  (length (matches d) <= ix -> render_match ix selected d = None).
Proof.
  intros R. destruct (reachable_fuzzy_inv d R) as (Hc & _ & Hf & _).
  unfold render_match. split.
  - intros mat Hm. rewrite Hm, Hc.
    destruct (Hf mat (proj1 (list_elem_of_In _ _) (list_elem_of_lookup_2 _ _ _ Hm)))
      as (c & Hin & Hid & Hs).
    rewrite Hid, (find_indent_candidate c Hin). simpl. rewrite Hs. reflexivity.
  - intros Hge. rewrite (lookup_ge_None_2 _ _ Hge). reflexivity.
Qed.

Lemma render_match_rows_witness :
  reachable fuzzy_match_strings delegate_after_spaces /\
  render_match 5 false delegate_after_spaces = None.
Proof.
  assert (R : reachable fuzzy_match_strings delegate_after_spaces)
    by (apply reach_update; apply reach_new).
  split; [exact R|].
  apply (proj2 (render_match_rows delegate_after_spaces 5 false R)).
  vm_compute. lia.
Defined.

(** X9: in every state reachable with the fuzzy matcher, clearing the query
    (an [update_matches] with the empty query) lists the four candidates in
    their fixed order and keeps the selected index. *)
Theorem clear_query_keeps_selection (d : IndentSizeSelectorDelegate) :
  reachable fuzzy_match_strings d ->
  map candidate_id (matches (update_matches fuzzy_match_strings "" d)) = [16; 2; 4; 8] /\
  selected_index (update_matches fuzzy_match_strings "" d) = selected_index d.
Proof.
  intros R. destruct (reachable_fuzzy_inv d R) as (Hc & Hl & _ & Hv).
  unfold update_matches, update_matches_complete, compute_matches. rewrite Hc.
  simpl. split; [reflexivity|]. unfold valid_selection in Hv. lia.
Qed.

Lemma clear_query_keeps_selection_witness :
  let d := set_selected_index 1 delegate_after_spaces in
  reachable fuzzy_match_strings d /\
  selected_index (update_matches fuzzy_match_strings "" d) = 1.
Proof.
  intros d.
  assert (R : reachable fuzzy_match_strings d).
  { apply reach_set_selected; [apply reach_update; apply reach_new|].
    vm_compute. lia. }
  split; [exact R|]. apply (proj2 (clear_query_keeps_selection d R)).
Defined.

(** X10: whatever the store answers, [confirm] leaves the delegate as it
    is, makes at most one settings-store write, and ends with the dismissal
    of [dismissed]. *)
Theorem confirm_shape (cx : Cx) (d : IndentSizeSelectorDelegate) :
  fst (confirm cx d) = d /\
  length (List.filter is_settings_write (snd (confirm cx d))) <= 1 /\
  exists pre, snd (confirm cx d) = (pre ++ snd (dismissed cx d))%list.
Proof.
  split; [apply confirm_state|].
  destruct (matches d !! selected_index d) as [mat|] eqn:Hm.
  - destruct (file_at (editor d) Point_zero) as [f|] eqn:Hf.
    + rewrite (confirm_with_file d cx mat f Hm Hf). split.
      * simpl. rewrite List.filter_app.
        destruct (set_local_settings _ _ _ _ _); simpl; rewrite dismissed_no_write;
          simpl; lia.
      * simpl snd.
        destruct (set_local_settings _ _ _ _ _) as [err|].
        -- exists [SetLocalSettings (worktree_id f) (path f) Editorconfig
                     (Some (indent_config (candidate_id mat)));
                   LogError ("set_indent failed: " +:+ err)]. reflexivity.
        -- exists [SetLocalSettings (worktree_id f) (path f) Editorconfig
                     (Some (indent_config (candidate_id mat)))]. reflexivity.
    + rewrite (confirm_no_file d cx mat Hm Hf). simpl.
      rewrite dismissed_no_write. split; [simpl; lia|exists []; reflexivity].
  - rewrite (confirm_no_selection d cx Hm). simpl.
    rewrite dismissed_no_write. split; [simpl; lia|exists []; reflexivity].
Qed.

(** X11: in every state reachable with the fuzzy matcher, a settings-store
    write made by [confirm] carries the [Editorconfig] text for one of the
    candidate ids 16, 2, 4 or 8. *)
Theorem confirm_writes_candidate_size (cx : Cx) (d : IndentSizeSelectorDelegate)
    (e : Event) :
  reachable fuzzy_match_strings d ->
  In e (snd (confirm cx d)) -> is_settings_write e = true ->
  exists w p n, e = SetLocalSettings w p Editorconfig (Some (indent_config n)) /\
                In n [16; 2; 4; 8].
Proof.
  intros R Hin Hw. destruct (reachable_fuzzy_inv d R) as (_ & _ & Hf & _).
  destruct (matches d !! selected_index d) as [mat|] eqn:Hm.
  - destruct (file_at (editor d) Point_zero) as [f|] eqn:Hfile.
    + rewrite (confirm_with_file d cx mat f Hm Hfile) in Hin. simpl in Hin.
      destruct Hin as [<-|Hin].
      * exists (worktree_id f), (path f), (candidate_id mat). split; [reflexivity|].
        destruct (Hf mat (proj1 (list_elem_of_In _ _) (list_elem_of_lookup_2 _ _ _ Hm)))
          as (c & Hc & Hid & _).
        rewrite Hid. simpl in Hc.
        destruct Hc as [<-|[<-|[<-|[<-|[]]]]]; simpl; tauto.
      * exfalso. destruct (set_local_settings _ _ _ _ _); simpl in Hin;
          [destruct Hin as [<-|Hin]; [discriminate|]|];
          unfold dismissed in Hin; destruct (entity_alive cx _);
          simpl in Hin; destruct Hin as [<-|[]]; discriminate.
    + rewrite (confirm_no_file d cx mat Hm Hfile) in Hin. simpl in Hin.
      exfalso. unfold dismissed in Hin; destruct (entity_alive cx _);
        simpl in Hin; destruct Hin as [<-|[]]; discriminate.
  - rewrite (confirm_no_selection d cx Hm) in Hin. simpl in Hin.
    exfalso. unfold dismissed in Hin; destruct (entity_alive cx _);
      simpl in Hin; destruct Hin as [<-|[]]; discriminate.
Qed.

Definition delegate_four_rust : IndentSizeSelectorDelegate :=
  update_matches fuzzy_match_strings "4"
    (IndentSizeSelectorDelegate_new 9 editor_rust).

Lemma confirm_writes_candidate_size_witness :
  reachable fuzzy_match_strings delegate_four_rust /\
  In (SetLocalSettings 1 "src/main.rs" Editorconfig (Some (indent_config 4)))
     (snd (confirm cx_ok delegate_four_rust)) /\
  exists w p n,
    SetLocalSettings 1 "src/main.rs" Editorconfig (Some (indent_config 4)) =
      SetLocalSettings w p Editorconfig (Some (indent_config n)) /\
    In n [16; 2; 4; 8].
Proof.
  assert (R : reachable fuzzy_match_strings delegate_four_rust)
    by (apply reach_update; apply reach_new).
  assert (Hin : In (SetLocalSettings 1 "src/main.rs" Editorconfig (Some (indent_config 4)))
                   (snd (confirm cx_ok delegate_four_rust))).
  { vm_compute. left. reflexivity. }
  split; [exact R|]. split; [exact Hin|].
  apply (confirm_writes_candidate_size cx_ok delegate_four_rust _ R Hin).
  reflexivity.
Defined.

(** X12: with any matcher, in any reachable state, clearing the query,
    selecting row [i] of the unfiltered list and confirming writes, for the
    editor's file, exactly the settings of the [i]-th candidate's id. *)
Theorem unfiltered_row_confirm (ms : MatchStrings) (cx : Cx)
    (d : IndentSizeSelectorDelegate) (i : nat) (c : StringMatchCandidate) (f : File) :
  reachable ms d ->
  indent_candidates !! i = Some c ->
  file_at (editor d) Point_zero = Some f ->
  List.filter is_settings_write
    (snd (confirm cx (set_selected_index i (update_matches ms "" d)))) =
    [SetLocalSettings (worktree_id f) (path f) Editorconfig
       (Some (indent_config (cand_id c)))].
Proof.
  intros R Hi Hf.
  set (d' := set_selected_index i (update_matches ms "" d)).
  assert (Hm : matches d' !! selected_index d' =
               Some {| candidate_id := cand_id c; string_of_match := cand_string c;
                       positions := []; score := 0%float |}).
  { subst d'. simpl. unfold compute_matches. simpl.
    rewrite (reachable_candidates ms d R), list_lookup_fmap, Hi. reflexivity. }
  rewrite (confirm_with_file d' cx _ f Hm Hf). simpl. rewrite List.filter_app.
  destruct (set_local_settings _ _ _ _ _); simpl; rewrite dismissed_no_write; reflexivity.
Qed.

Lemma unfiltered_row_confirm_witness :
  List.filter is_settings_write
    (snd (confirm cx_ok (set_selected_index 3
       (update_matches fuzzy_match_strings "" delegate_four_rust)))) =
    [SetLocalSettings 1 "src/main.rs" Editorconfig (Some (indent_config 8))].
Proof.
  apply (unfiltered_row_confirm fuzzy_match_strings cx_ok delegate_four_rust 3
           (StringMatchCandidate_new 8 "8 spaces") main_rs).
  - apply reach_update; apply reach_new.
  - reflexivity.
  - reflexivity.
Defined.

(** X13: [set_selected_index] does not check its index; with an index at
    or past the end of [matches], [confirm] writes no settings and only
    performs the dismissal. *)
Theorem confirm_out_of_range_index (cx : Cx) (d : IndentSizeSelectorDelegate) (ix : nat) :
  length (matches d) <= ix ->
  confirm cx (set_selected_index ix d) =
    (set_selected_index ix d, snd (dismissed cx d)) /\
  List.filter is_settings_write (snd (confirm cx (set_selected_index ix d))) = [].
Proof.
  intros H.
  assert (Hc : confirm cx (set_selected_index ix d) =
               (set_selected_index ix d, snd (dismissed cx (set_selected_index ix d)))).
  { apply confirm_no_selection. apply lookup_ge_None_2. exact H. }
  split.
  - rewrite Hc. reflexivity.
  - rewrite Hc. apply dismissed_no_write.
Qed.

Lemma confirm_out_of_range_index_witness :
  confirm cx_ok (set_selected_index 7 delegate_four_rust) =
    (set_selected_index 7 delegate_four_rust, [EmitDismiss 9]).
Proof.
  apply (confirm_out_of_range_index cx_ok delegate_four_rust 7). vm_compute. lia.
Defined.
